(** * Azure::Core::Http::Response — header store and body-stream ownership

    Shallow embedding of [sdk/core/azure-core/src/http/response.cpp]:
    the accessors, the two [AddHeader] overloads and [SetBodyStream],
    together with the parts of the C++ standard library they rely on
    ([std::string] iterators, [std::find], [std::map::insert] and
    [std::unique_ptr] move assignment). *)

From Equations Require Import Equations.
From Stdlib Require Import Ascii String.
From stdpp Require Import gmap strings list.

Open Scope string_scope.

(** ** std::string and its iterators

    A [std::string] is a [string]; an iterator into it is the offset from
    [begin()], so [header.end()] is [String.length header].  Computations
    whose C++ counterpart would be undefined behaviour (reading through an
    iterator that is not dereferenceable, an invalid iterator range)
    yield [None]; every other computation yields [Some]. *)

Module StdString.

(** [*it] *)
Definition deref (s : string) (it : nat) : option ascii := String.get it s.

(** [std::find(first, last, c)]:
    [for (; first != last; ++first) if ( *first == c ) return first;
     return last;] *)
Equations? find (s : string) (first last : nat) (c : ascii) : option nat
  by wf (last - first) lt :=
  find s first last c with lt_dec first last := {
    | left _ with deref s first := {
        | Some x with decide (x = c) := {
            | left _ := Some first
            | right _ := find s (S first) last c }
        | None := None }
    | right _ with decide (first = last) := {
        | left _ := Some last
        | right _ := None } }.
Proof. lia. Qed.

(** [std::string(first, last)]: the characters of the range
    [[first, last)]. *)
Definition range (s : string) (first last : nat) : option string :=
  if decide (first ≤ last ∧ last ≤ String.length s)%nat
  then Some (String.substring first (last - first) s)
  else None.

End StdString.

(** ** std::unique_ptr<BodyStream>

    A [BodyStream] lives on the heap; the heap is the set of addresses of
    the streams that have not been destroyed.  A [unique_ptr] is either
    null or the address it owns. *)

Abbreviation addr := positive.
Abbreviation heap := (gset positive).
Abbreviation unique_ptr := (option positive).

Module UniquePtr.

(** [delete p] *)
Definition delete (p : addr) (h : heap) : heap := h ∖ {[p]}.

(** [u.release()]: hands out the owned address and leaves [u] null. *)
Definition release (u : unique_ptr) : unique_ptr * unique_ptr := (u, None).

(** [u.reset(p)]: stores [p], then deletes what [u] owned before. *)
Definition reset (u : unique_ptr) (p : unique_ptr) (h : heap)
  : unique_ptr * heap :=
  let old := u in
  (p, match old with Some q => delete q h | None => h end).

(** [dst = std::move(src)], that is [dst.reset(src.release())]. *)
Definition move_assign (dst src : unique_ptr) (h : heap)
  : unique_ptr * unique_ptr * heap :=
  let '(p, src') := release src in
  let '(dst', h') := reset dst p h in
  (dst', src', h').

(** [~unique_ptr()] *)
Definition destroy (u : unique_ptr) (h : heap) : heap :=
  match u with Some q => delete q h | None => h end.

End UniquePtr.

(** ** Response *)

(** Modelled from the spec: [HttpStatusCode] is an enumeration declared in
    [http/http.hpp]; only its identity matters here, so a status is the
    numeric code it stands for. *)
Definition HttpStatusCode := N.

(** The data members of [Response] (declared in [http/http.hpp], used in
    [response.cpp]). *)
Record Response := mkResponse {
  m_statusCode : HttpStatusCode;
  m_reasonPhrase : string;
  m_headers : gmap string string;
  m_bodyStream : unique_ptr
}.

Definition GetStatusCode (r : Response) : HttpStatusCode := m_statusCode r.

Definition GetReasonPhrase (r : Response) : string := m_reasonPhrase r.

Definition GetHeaders (r : Response) : gmap string string := m_headers r.

(** [std::map::insert(std::pair(k, v))]: inserts only when no element with
    an equivalent key exists. *)
Definition map_insert (k v : string) (m : gmap string string)
  : gmap string string :=
  match m !! k with
  | Some _ => m
  | None => <[k:=v]> m
  end.

(** [void Response::AddHeader(std::string const& name,
                              std::string const& value)] *)
Definition AddHeader (r : Response) (name value : string) : Response :=
  mkResponse (m_statusCode r) (m_reasonPhrase r)
             (map_insert name value (m_headers r)) (m_bodyStream r).

(** The characters ['\r'], ['\n'] and ['\t']. *)
Definition CR : ascii := "013"%char.
Definition LF : ascii := "010"%char.
Definition TAB : ascii := "009"%char.

(** [c == ' ' || c == '\t'] *)
Definition is_blank (c : ascii) : bool :=
  bool_decide (c = " "%char) || bool_decide (c = TAB).

(** The loop
    [while (start < header.end() && ( *start == ' ' || *start == '\t' ))
       ++start;] *)
Equations? skip_blanks (header : string) (start : nat) : option nat
  by wf (String.length header - start) lt :=
  skip_blanks header start with lt_dec start (String.length header) := {
    | left _ with StdString.deref header start := {
        | Some c with is_blank c := {
            | true := skip_blanks header (S start)
            | false := Some start }
        | None := None }
    | right _ := Some start }.
Proof. lia. Qed.

(** [void Response::AddHeader(std::string const& header)], the overload
    that parses one raw header line. *)
Definition AddHeaderLine (r : Response) (header : string) : option Response :=
  let start := 0 in
  end_ ← StdString.find header start (String.length header) ":"%char;
  if decide (end_ = String.length header) then
    Some r
  else
    headerName ← StdString.range header start end_;
    let start := end_ + 1 in
    start ← skip_blanks header start;
    end_ ← StdString.find header start (String.length header) CR;
    headerValue ← StdString.range header start end_;
    Some (AddHeader r headerName headerValue).

(** [void Response::SetBodyStream(std::unique_ptr<BodyStream> stream)]:
    the body, which leaves the by-value parameter in its moved-from
    state, followed by the destruction of that parameter on return. *)
Definition SetBodyStream_body (r : Response) (stream : unique_ptr)
  (h : heap) : Response * unique_ptr * heap :=
  let '(dst, stream', h') := UniquePtr.move_assign (m_bodyStream r) stream h in
  (mkResponse (m_statusCode r) (m_reasonPhrase r) (m_headers r) dst,
   stream', h').

Definition SetBodyStream (r : Response) (stream : unique_ptr)
  (h : heap) : Response * heap :=
  let '(r', stream', h') := SetBodyStream_body r stream h in
  (r', UniquePtr.destroy stream' h').

(** ** Vocabulary for stating properties *)

(** [contains s c]: the character [c] occurs in [s]. *)
Fixpoint contains (s : string) (c : ascii) : Prop :=
  match s with
  | EmptyString => False
  | String a s' => a = c ∨ contains s' c
  end.

(** Every character of [s] is a space or a horizontal tab. *)
Fixpoint all_blank (s : string) : bool :=
  match s with
  | EmptyString => true
  | String a s' => is_blank a && all_blank s'
  end.

(** [s] begins with a space or a horizontal tab. *)
Definition starts_blank (s : string) : bool :=
  match s with
  | EmptyString => false
  | String a _ => is_blank a
  end.

#[global] Instance contains_dec s c : Decision (contains s c).
Proof.
  induction s as [|a s IH]; simpl; [right; tauto|].
  destruct (decide (a = c)); [left; tauto|].
  destruct IH; [left; tauto | right; tauto].
Defined.

(** The text of [s] before its first [c]; all of [s] when [c] does not
    occur. *)
Fixpoint before (c : ascii) (s : string) : string :=
  match s with
  | EmptyString => EmptyString
  | String a s' => if decide (a = c) then EmptyString else String a (before c s')
  end.

(** The text of [s] after its first [c]. *)
Fixpoint after (c : ascii) (s : string) : string :=
  match s with
  | EmptyString => EmptyString
  | String a s' => if decide (a = c) then s' else after c s'
  end.

(** The leading run of spaces and tabs of [s], and what follows it. *)
Fixpoint take_blanks (s : string) : string :=
  match s with
  | EmptyString => EmptyString
  | String a s' => if is_blank a then String a (take_blanks s') else EmptyString
  end.

Fixpoint drop_blanks (s : string) : string :=
  match s with
  | EmptyString => EmptyString
  | String a s' => if is_blank a then drop_blanks s' else s
  end.

(** ** The parser as a function of the line

    [parse_header] restates the parser on the structure of the line: the
    name is the text before the first colon, the value is what follows
    the colon once leading blanks are dropped, cut before its first
    carriage return. *)

Definition header_value (rest : string) : string :=
  before CR (drop_blanks rest).

Definition parse_header (line : string) : option (string * string) :=
  if decide (contains line ":")
  then Some (before ":" line, header_value (after ":" line))
  else None.

(** An entry [(name, value)] can be read back from [GetHeaders]. *)
Definition retrievable (r : Response) (name value : string) : Prop :=
  (name, value) ∈ map_to_list (GetHeaders r).

(** ** Sequences of calls on one Response *)

Inductive call : Type :=
| CallAddHeader (name value : string)
| CallAddHeaderLine (header : string)
| CallSetBodyStream (stream : unique_ptr).

Definition perform (c : call) (w : Response * heap) : option (Response * heap) :=
  match c with
  | CallAddHeader name value => Some (AddHeader w.1 name value, w.2)
  | CallAddHeaderLine header => r' ← AddHeaderLine w.1 header; Some (r', w.2)
  | CallSetBodyStream stream => Some (SetBodyStream w.1 stream w.2)
  end.

Fixpoint perform_all (cs : list call) (w : Response * heap)
  : option (Response * heap) :=
  match cs with
  | [] => Some w
  | c :: cs' => w' ← perform c w; perform_all cs' w'
  end.

(** A response as it stands before any header is added. *)
Definition sample : Response :=
  mkResponse 200%N "OK" ∅ None.

(** ** Further vocabulary *)

(** An entry as the line parser produces it: no colon in the name, no
    carriage return in the value, no space or tab at its start. *)
Definition parsed_entry (name value : string) : Prop :=
  ¬ contains name ":" ∧ ¬ contains value CR ∧ starts_blank value = false.

(** The calls that add a header, as opposed to [SetBodyStream]. *)
Definition adds_header (c : call) : bool :=
  match c with
  | CallAddHeader _ _ | CallAddHeaderLine _ => true
  | CallSetBodyStream _ => false
  end.

(** ** Size literals of the storage tests ([sdk/storage/test/test_base.hpp])

    [unsigned long long] is a 64-bit unsigned integer: a [Z] in
    [[0, 2^64)], every product reduced modulo [2^64].  The products
    associate to the left, as in the source. *)

Module TestBase.

Definition ull (z : Z) : Z := (z mod 2 ^ 64)%Z.

(** [operator""_KB(x) { return x * 1024; }] *)
Definition _KB (x : Z) : Z := ull (x * 1024).

(** [operator""_MB(x) { return x * 1024 * 1024; }] *)
Definition _MB (x : Z) : Z := ull (ull (x * 1024) * 1024).

(** [operator""_GB(x) { return x * 1024 * 1024 * 1024; }] *)
Definition _GB (x : Z) : Z := ull (ull (ull (x * 1024) * 1024) * 1024).

(** [operator""_TB(x) { return x * 1024 * 1024 * 1024 * 1024; }] *)
Definition _TB (x : Z) : Z :=
  ull (ull (ull (ull (x * 1024) * 1024) * 1024) * 1024).

End TestBase.

(** * Supporting lemmas *)

(** ** Facts about strings, offsets and ranges *)

Section StringFacts.
Implicit Types (s t : string) (c : ascii) (i j n : nat).

Lemma get_lt s i : (i < String.length s)%nat → ∃ c, String.get i s = Some c.
Proof.
  revert i. induction s as [|a s IH]; intros [|i] Hi; simpl in *;
    try lia; eauto. apply IH. lia.
Qed.

Lemma app_cons a s t : String a s +:+ t = String a (s +:+ t).
Proof. reflexivity. Qed.

Lemma length_app s t :
  String.length (s +:+ t) = (String.length s + String.length t)%nat.
Proof. induction s as [|a s IH]; simpl; [done|]. by rewrite IH. Qed.

Lemma get_app_l s t i :
  (i < String.length s)%nat → String.get i (s +:+ t) = String.get i s.
Proof.
  revert i. induction s as [|a s IH]; intros [|i] Hi; simpl in *;
    try lia; [done|]. apply IH. lia.
Qed.

Lemma get_app_r s t i :
  String.get (String.length s + i) (s +:+ t) = String.get i t.
Proof. induction s as [|a s IH]; simpl; [done|]. apply IH. Qed.

Lemma substring_app_r s t n m :
  String.substring (String.length s + n) m (s +:+ t) = String.substring n m t.
Proof. induction s as [|a s IH]; simpl; [done|]. apply IH. Qed.

Lemma substring_prefix s t :
  String.substring 0 (String.length s) (s +:+ t) = s.
Proof.
  induction s as [|a s IH]; simpl; [by destruct t|]. by rewrite IH.
Qed.

Lemma range_valid s i j :
  (i ≤ j ≤ String.length s)%nat →
  StdString.range s i j = Some (String.substring i (j - i) s).
Proof. intros H. unfold StdString.range. by rewrite decide_True. Qed.

Lemma get_contains s c i : String.get i s = Some c → contains s c.
Proof.
  revert i. induction s as [|a s IH]; intros [|i] Hi; simpl in *;
    try discriminate.
  - left. congruence.
  - right. eauto.
Qed.

Lemma get_all_blank s c i :
  all_blank s = true → String.get i s = Some c → is_blank c = true.
Proof.
  revert i. induction s as [|a s IH]; intros [|i] Hb Hi; simpl in *;
    try discriminate; apply andb_prop in Hb as [Ha Hs].
  - congruence.
  - eauto.
Qed.

Lemma all_blank_no_CR s : all_blank s = true → ¬ contains s CR.
Proof.
  induction s as [|a s IH]; simpl; [tauto|].
  intros [Ha Hs]%andb_prop [->|H]; [discriminate Ha|tauto].
Qed.

Lemma contains_app s t c : contains (s +:+ t) c ↔ contains s c ∨ contains t c.
Proof. induction s as [|a s IH]; simpl; [tauto|]. rewrite IH. tauto. Qed.

End StringFacts.

(** ** What [std::find] and the blank-skipping loop return *)

Section Scanning.
Implicit Types (s : string) (c : ascii) (first last start k : nat).

(** [find] returns the least offset in the range holding [c], or [last]
    when there is none; it never reads outside a valid range. *)
Lemma find_first s first last c k :
  (first ≤ k ≤ last)%nat → (last ≤ String.length s)%nat →
  (∀ j, (first ≤ j < k)%nat → String.get j s ≠ Some c) →
  ((k < last)%nat → String.get k s = Some c) →
  StdString.find s first last c = Some k.
Proof.
  intros Hk Hl Hbefore Hat.
  remember (k - first)%nat as n eqn:Hn.
  revert first Hk Hbefore Hn.
  induction n as [|n IH]; intros first Hk Hbefore Hn.
  - assert (first = k) by lia. subst first.
    simp find. destruct (lt_dec k last) as [Hlt|Hge]; simpl.
    + unfold StdString.deref. rewrite (Hat Hlt). simpl.
      destruct (decide (c = c)); [reflexivity|congruence].
    + destruct (decide (k = last)); simpl; [congruence|lia].
  - simp find. destruct (lt_dec first last) as [Hlt|Hge]; [|lia]. simpl.
    unfold StdString.deref.
    destruct (get_lt s first) as [x Hx]; [lia|]. rewrite Hx. simpl.
    destruct (decide (x = c)) as [->|Hne]; simpl.
    + exfalso. apply (Hbefore first); [lia|assumption].
    + apply IH; [lia| |lia]. intros j Hj. apply Hbefore. lia.
Qed.

Lemma find_absent s c :
  ¬ contains s c → StdString.find s 0 (String.length s) c = Some (String.length s).
Proof.
  intros Hc. apply find_first; [lia|lia| |lia].
  intros j _ Hj. apply Hc. eapply get_contains, Hj.
Qed.

(** The loop stops at the first offset that is the end of the line or
    holds a character other than a space or a tab. *)
Lemma skip_blanks_first s start k :
  (start ≤ k ≤ String.length s)%nat →
  (∀ j, (start ≤ j < k)%nat →
        ∃ c, String.get j s = Some c ∧ is_blank c = true) →
  ((k < String.length s)%nat →
        ∃ c, String.get k s = Some c ∧ is_blank c = false) →
  skip_blanks s start = Some k.
Proof.
  intros Hk Hbefore Hat.
  remember (k - start)%nat as n eqn:Hn.
  revert start Hk Hbefore Hn.
  induction n as [|n IH]; intros start Hk Hbefore Hn.
  - assert (start = k) by lia. subst start.
    simp skip_blanks. destruct (lt_dec k (String.length s)) as [Hlt|Hge]; simpl.
    + destruct (Hat Hlt) as (x & Hx & Hb). unfold StdString.deref.
      rewrite Hx. simpl. rewrite Hb. reflexivity.
    + reflexivity.
  - simp skip_blanks.
    destruct (lt_dec start (String.length s)) as [Hlt|Hge]; [|lia]. simpl.
    destruct (Hbefore start) as (x & Hx & Hb); [lia|].
    unfold StdString.deref. rewrite Hx. simpl. rewrite Hb. simpl.
    apply IH; [lia| |lia]. intros j Hj. apply Hbefore. lia.
Qed.

End Scanning.

(** ** The line parser, piece by piece *)

Section Parsing.
Implicit Types (r : Response) (name ws value rest tail line : string).

Lemma before_after s c :
  contains s c → s = before c s +:+ String c (after c s).
Proof.
  induction s as [|a s IH]; simpl; [tauto|]. intros H.
  destruct (decide (a = c)) as [->|Hne]; simpl; [done|].
  destruct H as [?|H]; [done|]. rewrite app_cons. f_equal. by apply IH.
Qed.

Lemma before_absent s c : ¬ contains s c → before c s = s.
Proof.
  induction s as [|a s IH]; simpl; [done|]. intros H.
  destruct (decide (a = c)); [tauto|]. rewrite IH; tauto.
Qed.

Lemma before_free s c : ¬ contains (before c s) c.
Proof.
  induction s as [|a s IH]; simpl; [tauto|].
  destruct (decide (a = c)); simpl; tauto.
Qed.

Lemma blanks_split s : s = take_blanks s +:+ drop_blanks s.
Proof.
  induction s as [|a s IH]; simpl; [done|].
  destruct (is_blank a); [rewrite app_cons; f_equal; apply IH|done].
Qed.

Lemma take_blanks_blank s : all_blank (take_blanks s) = true.
Proof.
  induction s as [|a s IH]; simpl; [done|].
  destruct (is_blank a) eqn:Ha; simpl; [by rewrite Ha|done].
Qed.

Lemma drop_blanks_start s : starts_blank (drop_blanks s) = false.
Proof.
  induction s as [|a s IH]; simpl; [done|].
  destruct (is_blank a) eqn:Ha; simpl; done.
Qed.

(** A line made of a colon-free name, a colon, a run of blanks, a value
    free of carriage returns that does not begin with a blank, and
    then either nothing or a carriage return followed by anything, is
    parsed into exactly that name and that value. *)
Lemma AddHeaderLine_parts r name ws value rest :
  ¬ contains name ":" → all_blank ws = true →
  starts_blank value = false → ¬ contains value CR →
  rest = "" ∨ (∃ tail, rest = String CR tail) →
  AddHeaderLine r (name +:+ String ":" (ws +:+ value +:+ rest))
  = Some (AddHeader r name value).
Proof.
  intros Hname Hws Hstart Hvalue Hrest.
  set (body := ws +:+ value +:+ rest).
  set (line := name +:+ String ":" body).
  set (n := String.length name). set (w := String.length ws).
  set (v := String.length value).
  assert (Hlen : String.length line = (n + S (w + (v + String.length rest)))%nat).
  { unfold line, body. rewrite !length_app. simpl. rewrite !length_app. done. }
  assert (Hget : ∀ j, String.get (n + S j) line = String.get j body).
  { intros j. unfold line, n. by rewrite get_app_r. }
  assert (Hgetv : ∀ j, String.get (n + S (w + j)) line
                       = String.get j (value +:+ rest)).
  { intros j. rewrite Hget. unfold body, w. by rewrite get_app_r. }
  assert (Hcolon : StdString.find line 0 (String.length line) ":" = Some n).
  { apply find_first; [lia|lia| |].
    - intros j Hj Hc. apply Hname. apply (get_contains _ _ j).
      unfold line in Hc. rewrite get_app_l in Hc; [done|fold n; lia].
    - intros _. replace n with (n + 0)%nat by lia. unfold line, n.
      by rewrite get_app_r. }
  assert (Hnm : StdString.range line 0 n = Some name).
  { rewrite range_valid by lia. rewrite Nat.sub_0_r. unfold line, n.
    by rewrite substring_prefix. }
  assert (Hskip : skip_blanks line (n + 1) = Some (n + S w)%nat).
  { apply skip_blanks_first; [lia| |].
    - intros j Hj. replace j with (n + S (j - S n))%nat by lia.
      rewrite Hget. unfold body. rewrite get_app_l; [|fold w; lia].
      destruct (get_lt ws (j - S n)) as [c Hc]; [fold w; lia|].
      exists c. split; [done|]. by eapply get_all_blank.
    - intros Hlt. replace (n + S w)%nat with (n + S (w + 0))%nat by lia.
      rewrite Hgetv. destruct value as [|a value'].
      + destruct Hrest as [->|[tail ->]]; simpl in *; [lia|].
        exists CR. done.
      + exists a. done. }
  assert (Hcr : StdString.find line (n + S w) (String.length line) CR
                = Some (n + S (w + v))%nat).
  { apply find_first; [lia|lia| |].
    - intros j Hj Hc. apply Hvalue. apply (get_contains _ _ (j - (n + S w))).
      replace j with (n + S (w + (j - (n + S w))))%nat in Hc by lia.
      rewrite Hgetv in Hc. rewrite get_app_l in Hc; [done|fold v; lia].
    - intros Hlt. rewrite Hgetv. replace v with (v + 0)%nat by lia.
      unfold v. rewrite get_app_r.
      destruct Hrest as [->|[tail ->]]; simpl in *; [lia|done]. }
  assert (Hval : StdString.range line (n + S w) (n + S (w + v)) = Some value).
  { rewrite range_valid by lia.
    replace (n + S (w + v) - (n + S w))%nat with v by lia.
    unfold line, n. rewrite substring_app_r. simpl.
    unfold body, w. replace (String.length ws)
      with (String.length ws + 0)%nat by lia.
    rewrite substring_app_r. unfold v. by rewrite substring_prefix. }
  unfold AddHeaderLine. rewrite Hcolon. simpl.
  destruct (decide (n = String.length line)) as [Heq|_]; [lia|].
  rewrite Hnm. simpl. rewrite Hskip. simpl. rewrite Hcr. simpl.
  rewrite Hval. reflexivity.
Qed.

End Parsing.

(** ** The index-based code against [parse_header] *)

Section Refinement.
Implicit Types (r : Response) (name rest line : string).

Lemma app_empty_r s : s +:+ "" = s.
Proof. induction s as [|a s IH]; [done|]. rewrite app_cons. by f_equal. Qed.

Lemma AddHeaderLine_colon r name rest :
  ¬ contains name ":" →
  AddHeaderLine r (name +:+ String ":" rest)
  = Some (AddHeader r name (header_value rest)).
Proof.
  intros Hname. unfold header_value.
  rewrite (blanks_split rest) at 1.
  set (d := drop_blanks rest).
  destruct (decide (contains d CR)) as [Hd|Hd].
  - rewrite (before_after d CR Hd) at 1.
    apply AddHeaderLine_parts; eauto using take_blanks_blank, before_free.
    pose proof (drop_blanks_start rest) as Hs. fold d in Hs.
    destruct d as [|a d']; [done|]. simpl in *.
    destruct (decide (a = CR)); done.
  - rewrite <- (app_empty_r d) at 1. rewrite <- (before_absent d CR Hd) at 1.
    apply AddHeaderLine_parts; eauto using take_blanks_blank, before_free.
    rewrite (before_absent d CR Hd). apply drop_blanks_start.
Qed.

Lemma AddHeaderLine_no_colon r line :
  ¬ contains line ":" → AddHeaderLine r line = Some r.
Proof.
  intros Hc. unfold AddHeaderLine. rewrite find_absent by done. simpl.
  by rewrite decide_True.
Qed.

(** The index-based code computes what [parse_header] describes, and
    always returns. *)
Lemma AddHeaderLine_parse r line :
  AddHeaderLine r line
  = Some (match parse_header line with
          | Some (name, value) => AddHeader r name value
          | None => r
          end).
Proof.
  unfold parse_header. destruct (decide (contains line ":")) as [Hc|Hc].
  - rewrite (before_after line ":" Hc) at 1.
    apply AddHeaderLine_colon, before_free.
  - by apply AddHeaderLine_no_colon.
Qed.

End Refinement.

(** ** std::map::insert *)

Section MapInsert.
Implicit Types (m : gmap string string) (k v : string).

Lemma map_insert_present m k v v' :
  m !! k = Some v → map_insert k v' m = m.
Proof. intros H. unfold map_insert. by rewrite H. Qed.

Lemma map_insert_absent m k v :
  m !! k = None → map_insert k v m = <[k:=v]> m.
Proof. intros H. unfold map_insert. by rewrite H. Qed.

Lemma lookup_map_insert m k v :
  map_insert k v m !! k = Some (default v (m !! k)).
Proof.
  unfold map_insert. destruct (m !! k) as [x|] eqn:H; simpl; [done|].
  apply lookup_insert_eq.
Qed.

Lemma lookup_map_insert_ne m k k' v :
  k ≠ k' → map_insert k v m !! k' = m !! k'.
Proof.
  intros Hne. unfold map_insert. destruct (m !! k); [done|].
  by apply lookup_insert_ne.
Qed.

Lemma map_insert_twice m k v v' :
  map_insert k v' (map_insert k v m) = map_insert k v m.
Proof. eapply map_insert_present, lookup_map_insert. Qed.

End MapInsert.

Lemma retrievable_lookup r name value :
  retrievable r name value ↔ GetHeaders r !! name = Some value.
Proof. unfold retrievable. apply elem_of_map_to_list. Qed.

(** * Properties of Response *)

(** ** Repeated names *)

(** C1, as stated, fails: after [AddHeader("Set-Cookie", "a=1")] and
    [AddHeader("Set-Cookie", "b=2")] on a response without headers the two
    entries are not both retrievable from [GetHeaders], and neither are
    they after the two corresponding header lines. *)
Lemma AddHeader_duplicate_not_retained :
  ¬ (let r2 := AddHeader (AddHeader sample "Set-Cookie" "a=1")
                         "Set-Cookie" "b=2" in
     retrievable r2 "Set-Cookie" "a=1" ∧ retrievable r2 "Set-Cookie" "b=2")
  ∧ ¬ (∃ r2, AddHeaderLine sample ("Set-Cookie: a=1" +:+ String CR "")
             ≫= (λ r1, AddHeaderLine r1 ("Set-Cookie: b=2" +:+ String CR ""))
             = Some r2
             ∧ retrievable r2 "Set-Cookie" "a=1"
             ∧ retrievable r2 "Set-Cookie" "b=2").
Proof.
  split.
  - intros [_ H2]. apply retrievable_lookup in H2.
    vm_compute in H2. discriminate.
  - intros (r2 & Hrun & _ & H2). apply retrievable_lookup in H2.
    vm_compute in Hrun. injection Hrun as <-.
    vm_compute in H2. discriminate.
Qed.

(** C1, amended: two insertions under the same name keep a single entry,
    the one stored first.  The second [AddHeader(name, v2)] changes
    nothing, and the entry under [name] holds [v1], or the value the
    response already held under [name] before the two calls.  Two header
    lines with the same name behave alike: the second line changes
    nothing and the entry holds the first line's value. *)
Theorem AddHeader_same_name_keeps_first
    (r : Response) (name v1 v2 lname rest1 rest2 : string) :
  ¬ contains lname ":" →
  (AddHeader (AddHeader r name v1) name v2 = AddHeader r name v1
   ∧ GetHeaders (AddHeader r name v1) !! name
     = Some (default v1 (GetHeaders r !! name)))
  ∧ ∃ r1, AddHeaderLine r (lname +:+ ":" +:+ rest1) = Some r1
          ∧ AddHeaderLine r1 (lname +:+ ":" +:+ rest2) = Some r1
          ∧ GetHeaders r1 !! lname
            = Some (default (header_value rest1) (GetHeaders r !! lname)).
Proof.
  intros Hl. split.
  - split.
    + unfold AddHeader. simpl. by rewrite map_insert_twice.
    + apply lookup_map_insert.
  - exists (AddHeader r lname (header_value rest1)).
    change (lname +:+ ":" +:+ rest1) with (lname +:+ String ":" rest1).
    change (lname +:+ ":" +:+ rest2) with (lname +:+ String ":" rest2).
    rewrite !AddHeaderLine_colon by done. split; [done|]. split.
    + unfold AddHeader. simpl. by rewrite map_insert_twice.
    + apply lookup_map_insert.
Qed.

Lemma AddHeader_same_name_keeps_first_witness :
  ¬ contains "Set-Cookie" ":"
  ∧ AddHeader (AddHeader sample "Set-Cookie" "a=1") "Set-Cookie" "b=2"
    = AddHeader sample "Set-Cookie" "a=1".
Proof.
  assert (H : ¬ contains "Set-Cookie" ":") by (simpl; intuition discriminate).
  split; [exact H|].
  exact (proj1 (proj1 (AddHeader_same_name_keeps_first
                         sample "Set-Cookie" "a=1" "b=2" "Set-Cookie"
                         " a=1" " b=2" H))).
Defined.

(** ** Lines without a colon *)

(** C2: for every line in which no colon occurs, the line-parsing
    [AddHeader] returns normally and the response, its header collection
    included, is exactly what it was. *)
Theorem AddHeaderLine_without_colon (r : Response) (line : string) :
  ¬ contains line ":" →
  AddHeaderLine r line = Some r
  ∧ ∀ r', AddHeaderLine r line = Some r' → GetHeaders r' = GetHeaders r.
Proof.
  intros Hc. rewrite AddHeaderLine_no_colon by done.
  split; [done|]. by intros r' [= <-].
Qed.

Lemma AddHeaderLine_without_colon_witness :
  ¬ contains (String CR (String LF "")) ":"
  ∧ AddHeaderLine sample (String CR (String LF "")) = Some sample.
Proof.
  assert (H : ¬ contains (String CR (String LF "")) ":")
    by (simpl; intuition discriminate).
  split; [exact H|].
  exact (proj1 (AddHeaderLine_without_colon sample _ H)).
Defined.

(** ** Two worked lines *)

(** C3: the line ["Content-Length: 42\r"] stores the name
    ["Content-Length"] with the value ["42"]; more generally any run of
    spaces and tabs after the colon is skipped and whatever follows the
    first carriage return is dropped. *)
Theorem AddHeaderLine_content_length (r : Response) (ws tail : string) :
  GetHeaders r !! "Content-Length" = None →
  all_blank ws = true →
  (∃ r', AddHeaderLine r ("Content-Length: 42" +:+ String CR "") = Some r'
         ∧ GetHeaders r' = <["Content-Length":="42"]> (GetHeaders r)
         ∧ retrievable r' "Content-Length" "42")
  ∧ AddHeaderLine r ("Content-Length:" +:+ ws +:+ "42" +:+ String CR tail)
    = Some (AddHeader r "Content-Length" "42").
Proof.
  intros Hfresh Hws. split.
  - exists (AddHeader r "Content-Length" "42"). split; [reflexivity|].
    assert (Hm : GetHeaders (AddHeader r "Content-Length" "42")
                 = <["Content-Length":="42"]> (GetHeaders r)).
    { unfold AddHeader, GetHeaders in *. simpl. by apply map_insert_absent. }
    split; [exact Hm|]. apply retrievable_lookup. rewrite Hm.
    apply lookup_insert_eq.
  - change ("Content-Length:" +:+ ws +:+ "42" +:+ String CR tail)
      with ("Content-Length" +:+ String ":" (ws +:+ "42" +:+ String CR tail)).
    apply AddHeaderLine_parts; eauto; simpl; intuition discriminate.
Qed.

Lemma AddHeaderLine_content_length_witness :
  GetHeaders sample !! "Content-Length" = None
  ∧ all_blank " " = true
  ∧ AddHeaderLine sample ("Content-Length:" +:+ " " +:+ "42" +:+ String CR "")
    = Some (AddHeader sample "Content-Length" "42").
Proof.
  split; [reflexivity|]. split; [reflexivity|].
  exact (proj2 (AddHeaderLine_content_length sample " " ""
                  eq_refl eq_refl)).
Defined.

(** C4: the line ["X-Empty:"] stores the name ["X-Empty"] with the empty
    value.  The blank-skipping loop entered at the end of the line stops
    there at once, and the search for a carriage return and the
    construction of the value work on the empty range at the end of the
    line: nothing is read out of bounds. *)
Theorem AddHeaderLine_empty_value (r : Response) :
  GetHeaders r !! "X-Empty" = None →
  (∃ r', AddHeaderLine r "X-Empty:" = Some r'
         ∧ GetHeaders r' = <["X-Empty":=""]> (GetHeaders r)
         ∧ retrievable r' "X-Empty" "")
  ∧ skip_blanks "X-Empty:" (7 + 1) = Some 8
  ∧ StdString.find "X-Empty:" 8 (String.length "X-Empty:") CR = Some 8
  ∧ StdString.range "X-Empty:" 8 8 = Some "".
Proof.
  intros Hfresh. split; [|by vm_compute].
  exists (AddHeader r "X-Empty" ""). split; [reflexivity|].
  assert (Hm : GetHeaders (AddHeader r "X-Empty" "")
               = <["X-Empty":=""]> (GetHeaders r)).
  { unfold AddHeader, GetHeaders in *. simpl. by apply map_insert_absent. }
  split; [exact Hm|]. apply retrievable_lookup. rewrite Hm.
  apply lookup_insert_eq.
Qed.

Lemma AddHeaderLine_empty_value_witness :
  GetHeaders sample !! "X-Empty" = None
  ∧ ∃ r', AddHeaderLine sample "X-Empty:" = Some r'
          ∧ GetHeaders r' = <["X-Empty":=""]> (GetHeaders sample)
          ∧ retrievable r' "X-Empty" "".
Proof.
  split; [reflexivity|].
  exact (proj1 (AddHeaderLine_empty_value sample eq_refl)).
Defined.

(** ** Case of header names *)

(** C5: names are keys exactly as given.  On a response holding neither
    name, adding ["content-length"] and then ["Content-Length"], by
    [AddHeader] or by two header lines, yields two entries, one under
    each spelling, each with its own value. *)
Theorem AddHeader_case_preserved (r : Response) (v1 v2 rest1 rest2 : string) :
  GetHeaders r !! "content-length" = None →
  GetHeaders r !! "Content-Length" = None →
  let r2 := AddHeader (AddHeader r "content-length" v1) "Content-Length" v2 in
  (GetHeaders r2 = <["Content-Length":=v2]> (<["content-length":=v1]> (GetHeaders r))
   ∧ retrievable r2 "content-length" v1
   ∧ retrievable r2 "Content-Length" v2
   ∧ size (GetHeaders r2) = S (S (size (GetHeaders r))))
  ∧ AddHeaderLine r ("content-length:" +:+ rest1)
    ≫= (λ r1, AddHeaderLine r1 ("Content-Length:" +:+ rest2))
    = Some (AddHeader (AddHeader r "content-length" (header_value rest1))
                      "Content-Length" (header_value rest2)).
Proof.
  intros Hlow Hup r2.
  assert (Hne : "content-length" ≠ "Content-Length") by discriminate.
  assert (Hm : GetHeaders r2
          = <["Content-Length":=v2]> (<["content-length":=v1]> (GetHeaders r))).
  { unfold r2, AddHeader, GetHeaders in *. simpl.
    rewrite (map_insert_absent _ "content-length") by done.
    apply map_insert_absent. by rewrite lookup_insert_ne. }
  split.
  - split; [exact Hm|]. rewrite !retrievable_lookup, Hm. split; [|split].
    + rewrite lookup_insert_ne by done. apply lookup_insert_eq.
    + apply lookup_insert_eq.
    + rewrite !map_size_insert_None; [done..|].
      by rewrite lookup_insert_ne.
  - change ("content-length:" +:+ rest1)
      with ("content-length" +:+ String ":" rest1).
    change ("Content-Length:" +:+ rest2)
      with ("Content-Length" +:+ String ":" rest2).
    rewrite AddHeaderLine_colon by (simpl; intuition discriminate). simpl.
    apply AddHeaderLine_colon. simpl; intuition discriminate.
Qed.

Lemma AddHeader_case_preserved_witness :
  GetHeaders sample !! "content-length" = None
  ∧ GetHeaders sample !! "Content-Length" = None
  ∧ retrievable (AddHeader (AddHeader sample "content-length" "1")
                           "Content-Length" "2") "content-length" "1"
  ∧ retrievable (AddHeader (AddHeader sample "content-length" "1")
                           "Content-Length" "2") "Content-Length" "2".
Proof.
  split; [reflexivity|]. split; [reflexivity|].
  pose proof (proj1 (AddHeader_case_preserved sample "1" "2" " 1" " 2"
                       eq_refl eq_refl)) as (_ & H1 & H2 & _).
  exact (conj H1 H2).
Defined.

(** ** Status code and reason phrase *)

(** C6: whatever sequence of [AddHeader], line-parsing [AddHeader] and
    [SetBodyStream] calls is performed on a response, the sequence runs
    to completion, and afterwards [GetStatusCode] returns the status
    code and [GetReasonPhrase] the reason phrase that the response was
    built with: none of the calls writes [m_statusCode] or
    [m_reasonPhrase]. *)
Theorem status_and_reason_fixed (cs : list call) (r : Response) (h : heap) :
  ∃ r' h', perform_all cs (r, h) = Some (r', h')
           ∧ GetStatusCode r' = m_statusCode r
           ∧ GetReasonPhrase r' = m_reasonPhrase r
           ∧ m_statusCode r' = m_statusCode r
           ∧ m_reasonPhrase r' = m_reasonPhrase r
           ∧ GetStatusCode r' = GetStatusCode r
           ∧ GetReasonPhrase r' = GetReasonPhrase r.
Proof.
  assert (Hfields : ∃ r' h', perform_all cs (r, h) = Some (r', h')
                             ∧ m_statusCode r' = m_statusCode r
                             ∧ m_reasonPhrase r' = m_reasonPhrase r).
  { revert r h. induction cs as [|c cs IH]; intros r h; simpl.
    - by exists r, h.
    - assert (Hstep : ∃ r1 h1, perform c (r, h) = Some (r1, h1)
                               ∧ m_statusCode r1 = m_statusCode r
                               ∧ m_reasonPhrase r1 = m_reasonPhrase r).
      { destruct c as [name value|header|stream]; simpl.
        - by eexists _, _.
        - rewrite AddHeaderLine_parse. simpl. eexists _, _. split; [done|].
          by destruct (parse_header header) as [[name value]|].
        - unfold SetBodyStream, SetBodyStream_body, UniquePtr.move_assign.
          simpl. by eexists _, _. }
      destruct Hstep as (r1 & h1 & -> & Hs & Hp). simpl.
      destruct (IH r1 h1) as (r' & h' & -> & Hs' & Hp').
      exists r', h'. split; [done|]. split; congruence. }
  destruct Hfields as (r' & h' & Hrun & Hs & Hp).
  exists r', h'. unfold GetStatusCode, GetReasonPhrase.
  split; [exact Hrun|]. by rewrite Hs, Hp.
Qed.

(** ** Ownership of the body stream *)

(** C7: [SetBodyStream] given a live stream [p] that the response does
    not already own leaves the response owning [p], the parameter it was
    passed in moved-from (null), and [p] alive; the stream attached
    before, if any, is destroyed and nothing else is; status code, reason
    phrase and headers are unchanged. *)
Theorem SetBodyStream_takes_ownership (r : Response) (p : addr) (h : heap) :
  p ∈ h → m_bodyStream r ≠ Some p →
  let '(r', h') := SetBodyStream r (Some p) h in
  m_bodyStream r' = Some p
  ∧ (SetBodyStream_body r (Some p) h).1.2 = None
  ∧ p ∈ h'
  ∧ match m_bodyStream r with
    | Some q => (q ∉ h') ∧ h' = h ∖ {[q]}
    | None => h' = h
    end
  ∧ GetStatusCode r' = GetStatusCode r
  ∧ GetReasonPhrase r' = GetReasonPhrase r
  ∧ GetHeaders r' = GetHeaders r.
Proof.
  intros Hp Hold.
  unfold SetBodyStream, SetBodyStream_body, UniquePtr.move_assign,
    UniquePtr.reset, UniquePtr.release, UniquePtr.destroy, UniquePtr.delete.
  simpl. destruct (m_bodyStream r) as [q|]; simpl.
  - assert (q ≠ p) by congruence.
    split; [done|]. split; [done|].
    split; [by rewrite elem_of_difference, elem_of_singleton|].
    split; [|done]. split; [|done].
    rewrite elem_of_difference, elem_of_singleton. tauto.
  - repeat split; done.
Qed.

Lemma SetBodyStream_takes_ownership_witness :
  (2%positive ∈ ({[1%positive; 2%positive]} : heap))
  ∧ m_bodyStream (mkResponse 404%N "Not Found" ∅ (Some 1%positive))
    ≠ Some 2%positive
  ∧ let '(r', h') :=
      SetBodyStream (mkResponse 404%N "Not Found" ∅ (Some 1%positive))
                    (Some 2%positive) {[1%positive; 2%positive]} in
    m_bodyStream r' = Some 2%positive ∧ (1%positive ∉ h') ∧ 2%positive ∈ h'.
Proof.
  assert (H1 : 2%positive ∈ ({[1%positive; 2%positive]} : heap)) by set_solver.
  assert (H2 : m_bodyStream (mkResponse 404%N "Not Found" ∅ (Some 1%positive))
               ≠ Some 2%positive) by (simpl; congruence).
  split; [exact H1|]. split; [exact H2|].
  pose proof (SetBodyStream_takes_ownership
                (mkResponse 404%N "Not Found" ∅ (Some 1%positive))
                2%positive {[1%positive; 2%positive]} H1 H2) as H.
  simpl in H. destruct H as (Ha & _ & Hb & [Hc _] & _).
  exact (conj Ha (conj Hc Hb)).
Defined.

(** ** Extent of the value *)

(** C8: every line containing a colon splits into a colon-free name, the
    colon, a run of spaces and tabs, and a value that neither begins
    with a space or tab nor contains a carriage return, followed either
    by nothing or by a carriage return and a tail; the parser passes
    exactly that name and that value to [AddHeader], which stores them
    when the name is new.  When the line holds no carriage return the
    value is everything up to the end of the line, line feeds and other
    control characters included; otherwise the value stops just before
    the first carriage return found from the start of the value (the
    first of the line, unless the name itself holds one), and that
    carriage return and the tail are dropped. *)
Theorem AddHeaderLine_value_extent (r : Response) (line : string) :
  contains line ":" →
  ∃ name ws value,
    ¬ contains name ":" ∧ all_blank ws = true
    ∧ starts_blank value = false ∧ ¬ contains value CR
    ∧ (line = name +:+ ":" +:+ ws +:+ value
       ∨ ∃ tail, line = name +:+ ":" +:+ ws +:+ value +:+ String CR tail)
    ∧ (¬ contains line CR → line = name +:+ ":" +:+ ws +:+ value)
    ∧ (contains line CR → ¬ contains name CR →
       ∃ tail, line = name +:+ ":" +:+ ws +:+ value +:+ String CR tail)
    ∧ AddHeaderLine r line = Some (AddHeader r name value)
    ∧ (GetHeaders r !! name = None →
       GetHeaders (AddHeader r name value) !! name = Some value).
Proof.
  intros Hc.
  set (rest := after ":" line). set (d := drop_blanks rest).
  exists (before ":" line), (take_blanks rest), (before CR d).
  assert (Hline : line = before ":" line +:+ ":" +:+ take_blanks rest +:+ d).
  { rewrite <- blanks_split. by apply before_after. }
  assert (Hstart : starts_blank (before CR d) = false).
  { pose proof (drop_blanks_start rest) as Hs. fold d in Hs.
    destruct d as [|a d']; [done|]. simpl in *.
    destruct (decide (a = CR)); done. }
  assert (Hnocr : ¬ contains d CR →
                  line = before ":" line +:+ ":" +:+ take_blanks rest +:+ before CR d).
  { intros Hd. by rewrite (before_absent d CR Hd). }
  assert (Hcut : contains d CR →
                 ∃ tail, line = before ":" line +:+ ":" +:+ take_blanks rest
                                +:+ before CR d +:+ String CR tail).
  { intros Hd. exists (after CR d). by rewrite <- (before_after d CR Hd). }
  split; [apply before_free|]. split; [apply take_blanks_blank|].
  split; [exact Hstart|]. split; [apply before_free|].
  split; [|split; [|split; [|split]]].
  - destruct (decide (contains d CR)) as [Hd|Hd]; [right|left]; auto.
  - intros Hcr. apply Hnocr. intros Hd. apply Hcr. rewrite Hline.
    apply contains_app. right.
    change (contains (String ":" (take_blanks rest +:+ d)) CR).
    simpl. right. apply contains_app. by right.
  - intros Hcr Hncr. apply Hcut. rewrite Hline in Hcr.
    apply contains_app in Hcr as [Hcr|Hcr]; [done|].
    change (contains (String ":" (take_blanks rest +:+ d)) CR) in Hcr.
    simpl in Hcr. destruct Hcr as [Hcr|Hcr]; [discriminate Hcr|].
    apply contains_app in Hcr as [Hcr|Hcr]; [|done].
    by apply all_blank_no_CR in Hcr; [|apply take_blanks_blank].
  - rewrite AddHeaderLine_parse. unfold parse_header.
    by rewrite decide_True.
  - intros Hfresh. unfold AddHeader, GetHeaders in *. simpl.
    rewrite lookup_map_insert, Hfresh. done.
Qed.

Lemma AddHeaderLine_value_extent_witness :
  contains ("X: v" +:+ String LF "") ":"
  ∧ ∃ name ws value,
      ("X: v" +:+ String LF "" = name +:+ ":" +:+ ws +:+ value)
      ∧ AddHeaderLine sample ("X: v" +:+ String LF "")
        = Some (AddHeader sample name value).
Proof.
  assert (H : contains ("X: v" +:+ String LF "") ":") by (right; left; done).
  assert (Hcr : ¬ contains ("X: v" +:+ String LF "") CR)
    by (simpl; intuition discriminate).
  split; [exact H|].
  destruct (AddHeaderLine_value_extent sample _ H)
    as (name & ws & value & _ & _ & _ & _ & _ & Hline & _ & Hrun & _).
  exists name, ws, value. exact (conj (Hline Hcr) Hrun).
Defined.

(** ** Existing names *)

(** C9: when the response already holds a value under [name], a later
    [AddHeader(name, v2)] leaves the response as it was: the value held
    stays and [v2] is not stored. *)
Theorem AddHeader_existing_name_unchanged (r : Response) (name v v2 : string) :
  GetHeaders r !! name = Some v →
  AddHeader r name v2 = r
  ∧ GetHeaders (AddHeader r name v2) = GetHeaders r
  ∧ GetHeaders (AddHeader r name v2) !! name = Some v
  ∧ (v2 ≠ v → ¬ retrievable (AddHeader r name v2) name v2).
Proof.
  intros Hv.
  assert (Heq : AddHeader r name v2 = r).
  { destruct r as [sc rp hs bs]. unfold AddHeader, GetHeaders in *. simpl in *.
    by rewrite (map_insert_present hs name v v2). }
  rewrite Heq. repeat split; [done|].
  intros Hne Hr. apply retrievable_lookup in Hr. congruence.
Qed.

Lemma AddHeader_existing_name_unchanged_witness :
  GetHeaders (AddHeader sample "ETag" "x") !! "ETag" = Some "x"
  ∧ AddHeader (AddHeader sample "ETag" "x") "ETag" "y"
    = AddHeader sample "ETag" "x".
Proof.
  assert (H : GetHeaders (AddHeader sample "ETag" "x") !! "ETag" = Some "x")
    by reflexivity.
  split; [exact H|].
  exact (proj1 (AddHeader_existing_name_unchanged _ "ETag" "x" "y" H)).
Defined.

(** ** Names are not trimmed *)

(** C10: the name passed to [AddHeader] is the text before the first
    colon, as it is: for every colon-free [name], the line
    [name ++ ":" ++ rest] is stored under exactly [name].  The line
    [":value"] is stored under the empty name, and ["Name : v"] under
    ["Name "] with its trailing space. *)
Theorem AddHeaderLine_name_verbatim (r : Response) (name rest : string) :
  ¬ contains name ":" →
  (∃ value, AddHeaderLine r (name +:+ ":" +:+ rest)
            = Some (AddHeader r name value)
            ∧ is_Some (GetHeaders (AddHeader r name value) !! name)
            ∧ (GetHeaders r !! name = None →
               GetHeaders (AddHeader r name value)
               = <[name:=value]> (GetHeaders r)))
  ∧ AddHeaderLine r ":value" = Some (AddHeader r "" "value")
  ∧ AddHeaderLine r "Name : v" = Some (AddHeader r "Name " "v").
Proof.
  intros Hname. split; [|split; reflexivity].
  exists (header_value rest).
  change (name +:+ ":" +:+ rest) with (name +:+ String ":" rest).
  split; [by apply AddHeaderLine_colon|]. split.
  - unfold AddHeader, GetHeaders. simpl. rewrite lookup_map_insert. eauto.
  - intros Hfresh. unfold AddHeader, GetHeaders in *. simpl.
    by apply map_insert_absent.
Qed.

Lemma AddHeaderLine_name_verbatim_witness :
  ¬ contains "Name " ":"
  ∧ GetHeaders sample !! "Name " = None
  ∧ ∃ value, AddHeaderLine sample ("Name " +:+ ":" +:+ " v")
             = Some (AddHeader sample "Name " value)
             ∧ GetHeaders (AddHeader sample "Name " value)
               = <["Name ":=value]> (GetHeaders sample).
Proof.
  assert (H : ¬ contains "Name " ":") by (simpl; intuition discriminate).
  split; [exact H|]. split; [reflexivity|].
  destruct (proj1 (AddHeaderLine_name_verbatim sample "Name " " v" H))
    as (value & Hrun & _ & Hm).
  exists value. split; [exact Hrun|]. apply Hm. reflexivity.
Defined.


(** * Further properties *)

(** ** Helpers on single calls *)

Lemma perform_AddHeaderLine (header : string) (r : Response) (h : heap) :
  perform (CallAddHeaderLine header) (r, h)
  = Some (match parse_header header with
          | Some (name, value) => AddHeader r name value
          | None => r
          end, h).
Proof. simpl. by rewrite AddHeaderLine_parse. Qed.

Lemma lookup_map_insert_case (m : gmap string string) (k v j : string) :
  map_insert k v m !! j
  = if decide (j = k) then Some (default v (m !! k)) else m !! j.
Proof.
  destruct (decide (j = k)) as [->|Hne].
  - apply lookup_map_insert.
  - by apply lookup_map_insert_ne.
Qed.

Lemma map_insert_subseteq (m : gmap string string) (k v : string) :
  m ⊆ map_insert k v m.
Proof.
  unfold map_insert. destruct (m !! k) eqn:Hk; [done|].
  by apply insert_subseteq.
Qed.

Lemma map_insert_size (m : gmap string string) (k v : string) :
  size (map_insert k v m)
  = (size m + if m !! k is Some _ then 0 else 1)%nat.
Proof.
  unfold map_insert. destruct (m !! k) eqn:Hk; [lia|].
  rewrite map_size_insert_None by done. lia.
Qed.

Lemma header_value_parsed (rest : string) :
  ¬ contains (header_value rest) CR
  ∧ starts_blank (header_value rest) = false.
Proof.
  unfold header_value. split; [apply before_free|].
  pose proof (drop_blanks_start rest) as Hs.
  destruct (drop_blanks rest) as [|a d']; [done|]. simpl in *.
  destruct (decide (a = CR)); done.
Qed.

(** ** The line parser on every input *)

(** X1: on every line the line-parsing [AddHeader] returns: it never
    dereferences an iterator outside the line nor builds a string from an
    invalid range.  Its effect is [AddHeader] on the text before the first
    colon and on the text after it, leading spaces and tabs dropped, cut
    before the first carriage return; a line without colon has no
    effect. *)
Theorem AddHeaderLine_in_bounds_and_meaning (r : Response) (line : string) :
  AddHeaderLine r line
  = Some (if decide (contains line ":")
          then AddHeader r (before ":" line)
                         (before CR (drop_blanks (after ":" line)))
          else r).
Proof.
  rewrite AddHeaderLine_parse. unfold parse_header, header_value.
  by destruct (decide (contains line ":")).
Qed.

(** X2: writing a header and parsing it back.  For a name without colon
    and a value that holds no carriage return and does not begin with a
    space or tab, the line made of the name, a colon, any run of spaces
    and tabs, the value, and then nothing or a carriage return followed by
    anything (a line feed, say) is parsed into that name and value. *)
Theorem AddHeaderLine_round_trip
    (r : Response) (name ws value tail : string) :
  ¬ contains name ":" → all_blank ws = true →
  ¬ contains value CR → starts_blank value = false →
  AddHeaderLine r (name +:+ ":" +:+ ws +:+ value) = Some (AddHeader r name value)
  ∧ AddHeaderLine r (name +:+ ":" +:+ ws +:+ value +:+ String CR tail)
    = Some (AddHeader r name value).
Proof.
  intros Hn Hw Hv Hs. split.
  - rewrite <- (app_empty_r value) at 1.
    change (name +:+ ":" +:+ ws +:+ value +:+ "")
      with (name +:+ String ":" (ws +:+ value +:+ "")).
    apply AddHeaderLine_parts; auto.
  - change (name +:+ ":" +:+ ws +:+ value +:+ String CR tail)
      with (name +:+ String ":" (ws +:+ value +:+ String CR tail)).
    apply AddHeaderLine_parts; eauto.
Qed.

Lemma AddHeaderLine_round_trip_witness :
  ¬ contains "Host" ":" ∧ all_blank " " = true
  ∧ ¬ contains "example.org:8080" CR ∧ starts_blank "example.org:8080" = false
  ∧ AddHeaderLine sample ("Host" +:+ ":" +:+ " " +:+ "example.org:8080"
                          +:+ String CR (String LF ""))
    = Some (AddHeader sample "Host" "example.org:8080").
Proof.
  assert (H1 : ¬ contains "Host" ":") by (simpl; intuition discriminate).
  assert (H2 : ¬ contains "example.org:8080" CR)
    by (simpl; intuition discriminate).
  split; [exact H1|]. split; [reflexivity|]. split; [exact H2|].
  split; [reflexivity|].
  exact (proj2 (AddHeaderLine_round_trip sample "Host" " " "example.org:8080"
                  (String LF "") H1 eq_refl H2 eq_refl)).
Defined.

(** X3: when only spaces and tabs follow the colon, the loop runs up to
    the end of the line and stops there, and the value stored is
    empty. *)
Theorem AddHeaderLine_blank_value (r : Response) (name ws : string) :
  ¬ contains name ":" → all_blank ws = true →
  skip_blanks (name +:+ ":" +:+ ws) (String.length name + 1)
  = Some (String.length (name +:+ ":" +:+ ws))
  ∧ AddHeaderLine r (name +:+ ":" +:+ ws) = Some (AddHeader r name "").
Proof.
  intros Hn Hw. split.
  - change (name +:+ ":" +:+ ws) with (name +:+ String ":" ws).
    apply skip_blanks_first.
    + rewrite length_app. simpl. lia.
    + intros j Hj. rewrite length_app in Hj. simpl in Hj.
      replace j with (String.length name + S (j - S (String.length name)))%nat
        by lia.
      rewrite get_app_r. simpl.
      destruct (get_lt ws (j - S (String.length name))) as [c Hc]; [lia|].
      exists c. split; [done|]. by eapply get_all_blank.
    + lia.
  - rewrite <- (app_empty_r ws).
    change (name +:+ ":" +:+ ws +:+ "")
      with (name +:+ String ":" (ws +:+ "" +:+ "")).
    apply AddHeaderLine_parts; auto.
Qed.

Lemma AddHeaderLine_blank_value_witness :
  ¬ contains "X-Empty" ":" ∧ all_blank (String " " (String TAB "")) = true
  ∧ AddHeaderLine sample ("X-Empty" +:+ ":" +:+ String " " (String TAB ""))
    = Some (AddHeader sample "X-Empty" "").
Proof.
  assert (H1 : ¬ contains "X-Empty" ":") by (simpl; intuition discriminate).
  split; [exact H1|]. split; [reflexivity|].
  exact (proj2 (AddHeaderLine_blank_value sample "X-Empty"
                  (String " " (String TAB "")) H1 eq_refl)).
Defined.

(** X4: the blank-skipping loop, entered at an offset within the line,
    returns an offset between its start and the end of the line; every
    character it passed is a space or a tab, and it stops at the end of
    the line or on a character that is neither.  It reads only inside
    the line. *)
Theorem skip_blanks_postcondition (header : string) (start : nat) :
  (start ≤ String.length header)%nat →
  ∃ k, skip_blanks header start = Some k
       ∧ (start ≤ k ≤ String.length header)%nat
       ∧ (∀ j, (start ≤ j < k)%nat →
               ∃ c, String.get j header = Some c ∧ is_blank c = true)
       ∧ (k = String.length header
          ∨ ∃ c, String.get k header = Some c ∧ is_blank c = false).
Proof.
  intros Hstart.
  remember (String.length header - start)%nat as n eqn:Hn.
  revert start Hstart Hn.
  induction n as [|n IH]; intros start Hstart Hn.
  - exists start. assert (start = String.length header) as -> by lia.
    split; [apply skip_blanks_first; [lia| |]; intros; lia|].
    split; [lia|]. split; [intros; lia|by left].
  - destruct (get_lt header start) as [c Hc]; [lia|].
    destruct (is_blank c) eqn:Hb.
    + destruct (IH (S start)) as (k & Hk & Hr & Hall & Hend); [lia..|].
      assert (Hall' : ∀ j, (start ≤ j < k)%nat →
                ∃ c, String.get j header = Some c ∧ is_blank c = true).
      { intros j Hj. destruct (decide (j = start)) as [->|Hne]; [eauto|].
        apply Hall. lia. }
      exists k. split; [|split; [lia|split; [exact Hall'|exact Hend]]].
      apply skip_blanks_first; [lia|exact Hall'|].
      intros Hlt. destruct Hend as [->|Hend]; [lia|exact Hend].
    + exists start. split; [|split; [lia|split; [intros; lia|eauto]]].
      apply skip_blanks_first; [lia|intros; lia|eauto].
Qed.

Lemma skip_blanks_postcondition_witness :
  (2 ≤ String.length "a:  b")%nat
  ∧ ∃ k, skip_blanks "a:  b" 2 = Some k
         ∧ (2 ≤ k ≤ String.length "a:  b")%nat.
Proof.
  assert (H : (2 ≤ String.length "a:  b")%nat) by (simpl; lia).
  split; [exact H|].
  destruct (skip_blanks_postcondition "a:  b" 2 H) as (k & Hk & Hr & _).
  exists k. exact (conj Hk Hr).
Defined.

(** X5: parsing the same line twice is the same as parsing it once. *)
Theorem AddHeaderLine_idempotent (r : Response) (line : string) :
  AddHeaderLine r line ≫= (λ r1, AddHeaderLine r1 line) = AddHeaderLine r line.
Proof.
  rewrite (AddHeaderLine_parse r). simpl. rewrite AddHeaderLine_parse.
  destruct (parse_header line) as [[name value]|]; [|done].
  f_equal. unfold AddHeader. simpl. by rewrite map_insert_twice.
Qed.

(** ** The header collection *)

(** X6: reading back after [AddHeader(name, value)].  Under [name] the
    collection holds the value it held before, or [value] when it held
    none; under every other name it holds what it held before. *)
Theorem AddHeader_lookup (r : Response) (name value k : string) :
  GetHeaders (AddHeader r name value) !! k
  = if decide (k = name)
    then Some (default value (GetHeaders r !! name))
    else GetHeaders r !! k.
Proof.
  unfold AddHeader, GetHeaders. simpl.
  destruct (decide (k = name)) as [->|Hne].
  - apply lookup_map_insert.
  - by apply lookup_map_insert_ne.
Qed.

(** X7: insertions under different names do not depend on their
    order. *)
Theorem AddHeader_commute (r : Response) (n1 v1 n2 v2 : string) :
  n1 ≠ n2 →
  AddHeader (AddHeader r n1 v1) n2 v2 = AddHeader (AddHeader r n2 v2) n1 v1.
Proof.
  intros Hne. unfold AddHeader. simpl. f_equal.
  apply map_eq. intros k. rewrite !lookup_map_insert_case.
  rewrite (decide_False (P := n1 = n2)) by done.
  rewrite (decide_False (P := n2 = n1)) by done.
  destruct (decide (k = n1)) as [E1|?], (decide (k = n2)) as [E2|?];
    [congruence|done..].
Qed.

Lemma AddHeader_commute_witness :
  "ETag" ≠ "Date"
  ∧ AddHeader (AddHeader sample "ETag" "x") "Date" "today"
    = AddHeader (AddHeader sample "Date" "today") "ETag" "x".
Proof.
  assert (H : "ETag" ≠ "Date") by discriminate.
  split; [exact H|].
  exact (AddHeader_commute sample "ETag" "x" "Date" "today" H).
Defined.

(** X8: [AddHeader] adds at most one entry: the number of entries grows
    by one when the name is new and stays the same otherwise. *)
Theorem AddHeader_size (r : Response) (name value : string) :
  size (GetHeaders (AddHeader r name value))
  = (size (GetHeaders r)
     + if GetHeaders r !! name is Some _ then 0 else 1)%nat.
Proof. unfold AddHeader, GetHeaders. simpl. apply map_insert_size. Qed.

(** X9: no call removes or changes an entry.  After any sequence of
    [AddHeader], line-parsing [AddHeader] and [SetBodyStream] calls,
    every entry the response held is still there with the same value,
    and the number of entries has grown by at most the number of
    header-adding calls. *)
Theorem headers_only_grow (cs : list call) (r : Response) (h : heap) :
  ∃ r' h', perform_all cs (r, h) = Some (r', h')
           ∧ GetHeaders r ⊆ GetHeaders r'
           ∧ (size (GetHeaders r')
              ≤ size (GetHeaders r) + length (filter adds_header cs))%nat.
Proof.
  revert r h. induction cs as [|c cs IH]; intros r h.
  - exists r, h. simpl. split; [done|]. split; [done|lia].
  - assert (Hstep : ∃ r1 h1, perform c (r, h) = Some (r1, h1)
              ∧ GetHeaders r ⊆ GetHeaders r1
              ∧ (size (GetHeaders r1)
                 ≤ size (GetHeaders r) + if adds_header c then 1 else 0)%nat).
    { unfold GetHeaders.
      destruct c as [name value|header|stream].
      - eexists _, _. split; [done|]. simpl. split.
        + apply map_insert_subseteq.
        + rewrite map_insert_size. destruct (m_headers r !! name); lia.
      - rewrite perform_AddHeaderLine. eexists _, _. split; [done|].
        destruct (parse_header header) as [[name value]|]; simpl.
        + split; [apply map_insert_subseteq|].
          rewrite map_insert_size. destruct (m_headers r !! name); lia.
        + split; [done|]. lia.
      - simpl. unfold SetBodyStream, SetBodyStream_body, UniquePtr.move_assign.
        simpl. eexists _, _. split; [done|]. simpl. split; [done|]. lia. }
    destruct Hstep as (r1 & h1 & Hrun & Hsub & Hsz).
    destruct (IH r1 h1) as (r' & h' & Hrun' & Hsub' & Hsz').
    exists r', h'. simpl. rewrite Hrun. simpl. split; [exact Hrun'|].
    split; [by etrans|].
    destruct (adds_header c) eqn:Hc.
    + rewrite filter_cons_True by (rewrite Hc; exact I). simpl. lia.
    + rewrite filter_cons_False by (rewrite Hc; exact id). lia.
Qed.

(** X10: entries added by line parsing alone are well formed.  If no
    name in the collection holds a colon and no value holds a carriage
    return or begins with a space or tab, the same is true after any
    number of header lines have been parsed. *)
Theorem parsed_entries_preserved (lines : list string) (r : Response) (h : heap) :
  map_Forall parsed_entry (GetHeaders r) →
  ∃ r', perform_all (CallAddHeaderLine <$> lines) (r, h) = Some (r', h)
        ∧ map_Forall parsed_entry (GetHeaders r').
Proof.
  revert r. induction lines as [|line lines IH]; intros r Hr.
  - by exists r.
  - rewrite fmap_cons.
    cbn [perform_all]. rewrite perform_AddHeaderLine. simpl.
    apply IH. unfold parse_header.
    destruct (decide (contains line ":")) as [Hc|Hc]; [|done].
    unfold AddHeader, GetHeaders in *. simpl. unfold map_insert.
    destruct (m_headers r !! before ":" line); [done|].
    apply map_Forall_insert_2; [|done].
    split; [apply before_free|apply header_value_parsed].
Qed.

Lemma parsed_entries_preserved_witness :
  map_Forall parsed_entry (GetHeaders sample)
  ∧ ∃ r', perform_all (CallAddHeaderLine <$> ["ETag: x"; "Date:  today"])
                      (sample, ∅) = Some (r', ∅)
          ∧ map_Forall parsed_entry (GetHeaders r').
Proof.
  assert (H : map_Forall parsed_entry (GetHeaders sample))
    by apply map_Forall_empty.
  split; [exact H|].
  exact (parsed_entries_preserved ["ETag: x"; "Date:  today"] sample ∅ H).
Defined.

(** ** The body stream *)

(** Membership in a heap from which single streams were deleted. *)
Ltac heap_membership :=
  rewrite ?elem_of_difference, ?elem_of_singleton; intuition congruence.

(** X11: the header-adding calls leave the body stream alone.  After any
    sequence of [AddHeader] and line-parsing [AddHeader] calls the
    response owns the stream it owned before and no stream has been
    destroyed. *)
Theorem header_calls_keep_body (cs : list call) (r : Response) (h : heap) :
  Forall (λ c, adds_header c = true) cs →
  ∃ r', perform_all cs (r, h) = Some (r', h)
        ∧ m_bodyStream r' = m_bodyStream r.
Proof.
  intros Hcs. revert r. induction Hcs as [|c cs Hc _ IH]; intros r.
  - by exists r.
  - destruct c as [name value|header|stream]; [| |discriminate Hc].
    + destruct (IH (AddHeader r name value)) as (r' & Hrun & Hb).
      exists r'. split; [exact Hrun|]. by rewrite Hb.
    + cbn [perform_all]. rewrite perform_AddHeaderLine. simpl.
      destruct (IH (match parse_header header with
                    | Some (name, value) => AddHeader r name value
                    | None => r
                    end)) as (r' & Hrun & Hb).
      exists r'. split; [exact Hrun|]. rewrite Hb.
      by destruct (parse_header header) as [[name value]|].
Qed.

Lemma header_calls_keep_body_witness :
  Forall (λ c, adds_header c = true)
         [CallAddHeader "ETag" "x"; CallAddHeaderLine "Date: today"]
  ∧ ∃ r', perform_all [CallAddHeader "ETag" "x"; CallAddHeaderLine "Date: today"]
                      (mkResponse 200%N "OK" ∅ (Some 1%positive),
                       {[1%positive]})
          = Some (r', {[1%positive]})
          ∧ m_bodyStream r' = Some 1%positive.
Proof.
  assert (H : Forall (λ c, adds_header c = true)
                [CallAddHeader "ETag" "x"; CallAddHeaderLine "Date: today"])
    by (repeat constructor).
  split; [exact H|].
  exact (header_calls_keep_body _ (mkResponse 200%N "OK" ∅ (Some 1%positive))
           {[1%positive]} H).
Defined.

(** X12: attaching a stream [p1] and then another stream [p2] leaves the
    response as attaching [p2] directly would, and the heap as well
    except that [p1] has been destroyed too; [p2], when it was alive and
    neither [p1] nor the stream owned at the start, is still alive. *)
Theorem SetBodyStream_twice (r : Response) (p1 p2 : addr) (h : heap) :
  p2 ∈ h → p1 ≠ p2 → m_bodyStream r ≠ Some p2 →
  let '(r1, h1) := SetBodyStream r (Some p1) h in
  let '(r2, h2) := SetBodyStream r1 (Some p2) h1 in
  r2 = (SetBodyStream r (Some p2) h).1
  ∧ h2 = (SetBodyStream r (Some p2) h).2 ∖ {[p1]}
  ∧ m_bodyStream r2 = Some p2
  ∧ (p1 ∉ h2) ∧ p2 ∈ h2.
Proof.
  intros Hp Hne Hold.
  unfold SetBodyStream, SetBodyStream_body, UniquePtr.move_assign,
    UniquePtr.reset, UniquePtr.release, UniquePtr.destroy, UniquePtr.delete.
  simpl. split; [done|].
  destruct (m_bodyStream r) as [q|]; simpl.
  - assert (q ≠ p2) by congruence.
    split; [done|]. split; [done|]. split; heap_membership.
  - split; [done|]. split; [done|]. split; heap_membership.
Qed.

Lemma SetBodyStream_twice_witness :
  (3%positive ∈ ({[1%positive; 2%positive; 3%positive]} : heap))
  ∧ 2%positive ≠ 3%positive
  ∧ m_bodyStream (mkResponse 200%N "OK" ∅ (Some 1%positive)) ≠ Some 3%positive
  ∧ let '(r1, h1) :=
      SetBodyStream (mkResponse 200%N "OK" ∅ (Some 1%positive))
                    (Some 2%positive) {[1%positive; 2%positive; 3%positive]} in
    let '(r2, h2) := SetBodyStream r1 (Some 3%positive) h1 in
    m_bodyStream r2 = Some 3%positive ∧ (2%positive ∉ h2) ∧ 3%positive ∈ h2.
Proof.
  assert (H1 : 3%positive ∈ ({[1%positive; 2%positive; 3%positive]} : heap))
    by set_solver.
  assert (H2 : 2%positive ≠ 3%positive) by discriminate.
  assert (H3 : m_bodyStream (mkResponse 200%N "OK" ∅ (Some 1%positive))
               ≠ Some 3%positive) by (simpl; congruence).
  split; [exact H1|]. split; [exact H2|]. split; [exact H3|].
  pose proof (SetBodyStream_twice
                (mkResponse 200%N "OK" ∅ (Some 1%positive))
                2%positive 3%positive
                {[1%positive; 2%positive; 3%positive]} H1 H2 H3) as H.
  simpl in H. destruct H as (_ & _ & Ha & Hb & Hc).
  exact (conj Ha (conj Hb Hc)).
Defined.

(** X13: a response destroys only streams it was given.  After any
    sequence of calls no stream has come into being, every stream
    destroyed was owned by the response at the start or passed to a
    [SetBodyStream] call of the sequence, and so is the stream the
    response owns at the end. *)
Theorem only_given_streams_destroyed (cs : list call) (r : Response) (h : heap) :
  ∃ r' h', perform_all cs (r, h) = Some (r', h')
    ∧ h' ⊆ h
    ∧ (∀ x, x ∈ h → x ∉ h' →
            m_bodyStream r = Some x ∨ CallSetBodyStream (Some x) ∈ cs)
    ∧ (∀ y, m_bodyStream r' = Some y →
            m_bodyStream r = Some y ∨ CallSetBodyStream (Some y) ∈ cs).
Proof.
  revert r h. induction cs as [|c cs IH]; intros r h.
  - exists r, h. split; [done|]. split; [done|]. split; [done|]. by left.
  - assert (Hstep : ∃ r1 h1, perform c (r, h) = Some (r1, h1)
              ∧ h1 ⊆ h
              ∧ (∀ x, x ∈ h → x ∉ h1 → m_bodyStream r = Some x)
              ∧ (∀ y, m_bodyStream r1 = Some y →
                      m_bodyStream r = Some y ∨ c = CallSetBodyStream (Some y))).
    { destruct c as [name value|header|stream].
      - eexists _, _. split; [done|]. simpl. split; [done|].
        split; [done|]. by left.
      - rewrite perform_AddHeaderLine. eexists _, _. split; [done|].
        split; [done|]. split; [done|]. intros y Hy. left.
        by destruct (parse_header header) as [[name value]|].
      - simpl. unfold SetBodyStream, SetBodyStream_body,
          UniquePtr.move_assign, UniquePtr.reset, UniquePtr.release,
          UniquePtr.destroy, UniquePtr.delete. simpl.
        eexists _, _. split; [done|]. simpl.
        destruct (m_bodyStream r) as [q|].
        + split; [apply subseteq_difference_l; done|]. split.
          * intros x Hx Hnx. f_equal.
            destruct (decide (x = q)) as [->|Hq]; [done|].
            exfalso. apply Hnx. heap_membership.
          * intros y ->. by right.
        + split; [done|]. split; [done|]. intros y ->. by right. }
    destruct Hstep as (r1 & h1 & Hrun & Hsub & Hgone & Hown).
    destruct (IH r1 h1) as (r' & h' & Hrun' & Hsub' & Hgone' & Hown').
    assert (Hlift : ∀ y, m_bodyStream r1 = Some y ∨ CallSetBodyStream (Some y) ∈ cs →
              m_bodyStream r = Some y ∨ CallSetBodyStream (Some y) ∈ c :: cs).
    { intros y [Hy|Hy].
      - destruct (Hown y Hy) as [Ho|Ho]; [by left|right; rewrite Ho; left].
      - right. by right. }
    exists r', h'. cbn [perform_all]. rewrite Hrun. simpl.
    split; [exact Hrun'|]. split; [by etrans|]. split.
    + intros x Hx Hnx. destruct (decide (x ∈ h1)) as [Hx1|Hx1].
      * apply Hlift. by apply Hgone'.
      * left. by apply Hgone.
    + intros y Hy. apply Hlift. by apply Hown'.
Qed.

(** ** Size literals *)

Section SizeLiterals.
Import TestBase.
Local Open Scope Z_scope.

Lemma ull_mul_l (a b : Z) : ull (ull a * b) = ull (a * b).
Proof. unfold ull. apply Z.mul_mod_idemp_l. lia. Qed.

Lemma ull_exact (z : Z) : 0 ≤ z → (ull z = z ↔ z < 2 ^ 64).
Proof.
  intros Hz. unfold ull. split.
  - intros <-. apply Z.mod_pos_bound. lia.
  - intros Hlt. apply Z.mod_small. lia.
Qed.

(** X14: wrap-around in the intermediate products does not matter.
    Each literal is its argument times the power of two it stands for,
    reduced modulo [2^64]. *)
Theorem size_literals_closed_form (x : Z) :
  _KB x = (x * 2 ^ 10) mod 2 ^ 64
  ∧ _MB x = (x * 2 ^ 20) mod 2 ^ 64
  ∧ _GB x = (x * 2 ^ 30) mod 2 ^ 64
  ∧ _TB x = (x * 2 ^ 40) mod 2 ^ 64.
Proof.
  unfold _KB, _MB, _GB, _TB. rewrite !ull_mul_l. unfold ull.
  repeat split; f_equal; lia.
Qed.

(** X15: each literal is exact up to a bound and wraps from there on.
    For an [unsigned long long] argument, [x_KB] is [1024 x] exactly when
    [x < 2^54], [x_MB] is [1024^2 x] exactly when [x < 2^44], [x_GB] is
    [1024^3 x] exactly when [x < 2^34], and [x_TB] is [1024^4 x] exactly
    when [x < 2^24]. *)
Theorem size_literals_exact (x : Z) :
  0 ≤ x < 2 ^ 64 →
  (_KB x = x * 1024 ↔ x < 2 ^ 54)
  ∧ (_MB x = x * 1024 * 1024 ↔ x < 2 ^ 44)
  ∧ (_GB x = x * 1024 * 1024 * 1024 ↔ x < 2 ^ 34)
  ∧ (_TB x = x * 1024 * 1024 * 1024 * 1024 ↔ x < 2 ^ 24).
Proof.
  intros Hx. unfold _KB, _MB, _GB, _TB. rewrite !ull_mul_l.
  rewrite !ull_exact by lia. repeat split; lia.
Qed.

Lemma size_literals_exact_witness :
  0 ≤ 4 < 2 ^ 64 ∧ _MB 4 = 4 * 1024 * 1024.
Proof.
  assert (H : 0 ≤ 4 < 2 ^ 64) by lia.
  split; [exact H|].
  exact (proj2 (proj1 (proj2 (size_literals_exact 4 H))) ltac:(lia)).
Defined.

End SizeLiterals.
